(** * CleanMaster browser extension: the download-event relay

    A shallow embedding of [browser_extension/background.js] and the
    properties of its two listeners and of [sendToCleanMaster].

    JavaScript strings are sequences of UTF-16 code units; a code unit is
    an [N] (below 65536 for every string the engine can build).  Effects
    ([fetch], [console.error], the [suggest] callback) are recorded in a
    trace; an async function body is a small resumable computation that
    suspends on [await fetch(...)]. *)

From Stdlib Require Import List NArith ZArith Bool Ascii String Lia.
Import ListNotations.

Local Open Scope N_scope.

(** ** Strings *)

Definition code_unit := N.
Definition jsstring := list code_unit.

(** A string literal with characters in the Latin-1 range. *)
Definition js (s : string) : jsstring := map N_of_ascii (list_ascii_of_string s).

Definition string_eqb (a b : jsstring) : bool :=
  if list_eq_dec N.eq_dec a b then true else false.

Definition slash : code_unit := 0x2f.

(** [String.prototype.split] for a separator of one code unit, which is
    how the request listener calls it ([url.split('/')]).  The resulting
    array always has at least one element. *)
Fixpoint split (s : jsstring) (sep : code_unit) : list jsstring :=
  match s with
  | [] => [[]]
  | c :: rest =>
      if c =? sep then [] :: split rest sep
      else match split rest sep with
           | [] => [[c]]
           | seg :: segs => (c :: seg) :: segs
           end
  end.

(** ** Values *)

Record js_error := { error_name : jsstring; error_message : jsstring }.

Inductive js_value :=
| VUndefined
| VString (s : jsstring)
| VError (e : js_error).

(** [Array.prototype.pop] on an array of strings, value returned:
    the last element, or [undefined] for an empty array. *)
Fixpoint pop (a : list jsstring) : js_value :=
  match a with
  | [] => VUndefined
  | [x] => VString x
  | _ :: t => pop t
  end.

(** [url.split('/').pop()] of the request listener. *)
Definition extract_filename (url : jsstring) : js_value := pop (split url slash).

(** [Array.prototype.join] with a separator of one code unit. *)
Fixpoint join (a : list jsstring) (sep : code_unit) : jsstring :=
  match a with
  | [] => []
  | [x] => x
  | x :: t => x ++ sep :: join t sep
  end.

(** ** [JSON.stringify] on plain objects with string properties *)

Definition quotation_mark : code_unit := 0x22.
Definition reverse_solidus : code_unit := 0x5c.

Definition hex_digit (n : N) : code_unit :=
  if n <? 10 then 0x30 + n else 0x61 + (n - 10).

(** [UnicodeEscape]: a backslash, [u] and four lowercase hexadecimal digits. *)
Definition UnicodeEscape (c : code_unit) : jsstring :=
  [reverse_solidus; 0x75;
   hex_digit (c / 4096 mod 16); hex_digit (c / 256 mod 16);
   hex_digit (c / 16 mod 16); hex_digit (c mod 16)].

Definition is_leading_surrogate (c : code_unit) : bool := (0xd800 <=? c) && (c <=? 0xdbff).
Definition is_trailing_surrogate (c : code_unit) : bool := (0xdc00 <=? c) && (c <=? 0xdfff).

(** One code unit that is not part of a surrogate pair. *)
Definition quote_unit (c : code_unit) : jsstring :=
  if c =? 0x08 then [reverse_solidus; 0x62]
  else if c =? 0x09 then [reverse_solidus; 0x74]
  else if c =? 0x0a then [reverse_solidus; 0x6e]
  else if c =? 0x0c then [reverse_solidus; 0x66]
  else if c =? 0x0d then [reverse_solidus; 0x72]
  else if c =? quotation_mark then [reverse_solidus; quotation_mark]
  else if c =? reverse_solidus then [reverse_solidus; reverse_solidus]
  else if (c <? 0x20) || is_leading_surrogate c || is_trailing_surrogate c
       then UnicodeEscape c
  else [c].

(** The body of [QuoteJSONString]: the string is read code point by code
    point, so a well-formed surrogate pair is copied and a lone surrogate
    is escaped. *)
Fixpoint quote_units (s : jsstring) : jsstring :=
  match s with
  | [] => []
  | c :: rest =>
      if is_leading_surrogate c then
        match rest with
        | d :: rest' =>
            if is_trailing_surrogate d then c :: d :: quote_units rest'
            else UnicodeEscape c ++ quote_units rest
        | [] => UnicodeEscape c
        end
      else quote_unit c ++ quote_units rest
  end.

Definition QuoteJSONString (s : jsstring) : jsstring :=
  quotation_mark :: quote_units s ++ [quotation_mark].

(** An object literal: its own enumerable properties in creation order. *)
Definition js_object := list (jsstring * js_value).

(** [SerializeJSONProperty]: [undefined] yields no text (the property is
    left out); an error object has no enumerable property of its own. *)
Definition SerializeJSONProperty (v : js_value) : option jsstring :=
  match v with
  | VUndefined => None
  | VString s => Some (QuoteJSONString s)
  | VError _ => Some (js "{}")
  end.

Fixpoint serialize_members (o : js_object) : list jsstring :=
  match o with
  | [] => []
  | (k, v) :: rest =>
      match SerializeJSONProperty v with
      | Some text => (QuoteJSONString k ++ 0x3a :: text) :: serialize_members rest
      | None => serialize_members rest
      end
  end.

(** [JSON.stringify(o)] for an object literal [o], no replacer, no indent. *)
Definition JSON_stringify (o : js_object) : jsstring :=
  0x7b :: join (serialize_members o) 0x2c ++ [0x7d].

(** ** The host: [fetch], [console.error], the [suggest] callback *)

Record RequestInit := {
  method : jsstring;
  headers : list (jsstring * jsstring);
  body : jsstring
}.

Record Response := { status : Z }.

(** [response.ok]: the status is in the range 200 to 299. *)
Definition ok (r : Response) : bool := ((200 <=? status r) && (status r <=? 299))%Z.

Inductive fetch_outcome :=
| Resolved (r : Response)
| Rejected (reason : js_value).

Record FilenameSuggestion := {
  suggested_filename : jsstring;
  conflictAction : option jsstring
}.

Inductive effect :=
| EFetch (resource : jsstring) (init : RequestInit)
| EConsoleError (args : list js_value)
| ESuggest (suggestion : option FilenameSuggestion)
| EUnhandledRejection (reason : js_value).

(** The network, as seen from the extension: what each call of [fetch]
    settles with. *)
Definition network := jsstring -> RequestInit -> fetch_outcome.

Class Monad (M : Type -> Type) := {
  ret : forall {A}, A -> M A;
  bind : forall {A B}, M A -> (A -> M B) -> M B
}.

Notation "x <- c1 ;; c2" := (bind c1 (fun x => c2))
  (at level 61, c1 at next level, right associativity).
Notation "c1 ;; c2" := (bind c1 (fun _ => c2))
  (at level 61, right associativity).

(** ** Async function bodies *)

Inductive async (A : Type) : Type :=
| Return (a : A)
| Throw (e : js_value)
| ConsoleError (args : list js_value) (k : async A)
| AwaitFetch (resource : jsstring) (init : RequestInit) (k : fetch_outcome -> async A).

Arguments Return {A} a.
Arguments Throw {A} e.
Arguments ConsoleError {A} args k.
Arguments AwaitFetch {A} resource init k.

Fixpoint async_bind {A B} (m : async A) (f : A -> async B) : async B :=
  match m with
  | Return a => f a
  | Throw e => Throw e
  | ConsoleError args k => ConsoleError args (async_bind k f)
  | AwaitFetch r i k => AwaitFetch r i (fun o => async_bind (k o) f)
  end.

#[export] Instance async_monad : Monad async := {
  ret := @Return;
  bind := @async_bind
}.

(** [try { m } catch (error) { h error }] *)
Fixpoint try_catch {A} (m : async A) (h : js_value -> async A) : async A :=
  match m with
  | Return a => Return a
  | Throw e => h e
  | ConsoleError args k => ConsoleError args (try_catch k h)
  | AwaitFetch r i k => AwaitFetch r i (fun o => try_catch (k o) h)
  end.

(** [await fetch(resource, init)]: the response when the promise is
    fulfilled, a throw of the reason when it is rejected. *)
Definition await_fetch (resource : jsstring) (init : RequestInit) : async Response :=
  AwaitFetch resource init
    (fun o => match o with
              | Resolved r => Return r
              | Rejected e => Throw e
              end).

Definition console_error (args : list js_value) : async unit :=
  ConsoleError args (Return tt).

(** ** [sendToCleanMaster] *)

Definition endpoint : jsstring := js "http://localhost:8080".

(** The text logged on a response that is not ok (Cyrillic, then
    [CleanMaster]). *)
Definition rejected_message : jsstring :=
  [0x041e; 0x0448; 0x0438; 0x0431; 0x043a; 0x0430; 0x0020;
   0x043f; 0x0440; 0x0438; 0x0020;
   0x043e; 0x0442; 0x043f; 0x0440; 0x0430; 0x0432; 0x043a; 0x0435; 0x0020;
   0x0432; 0x0020] ++ js "CleanMaster".

(** The text logged by the catch clause: the same followed by a colon. *)
Definition unreachable_message : jsstring := rejected_message ++ js ":".

(** The object literal passed to [JSON.stringify]. *)
Definition notification (url filename : js_value) : js_object :=
  [(js "type", VString (js "download"));
   (js "url", url);
   (js "filename", filename)].

Definition notification_request (url filename : js_value) : RequestInit :=
  {| method := js "POST";
     headers := [(js "Content-Type", js "application/json")];
     body := JSON_stringify (notification url filename) |}.

Definition sendToCleanMaster (url filename : js_value) : async js_value :=
  try_catch
    (response <- await_fetch endpoint (notification_request url filename) ;;
     if negb (ok response)
     then console_error [VString rejected_message]
     else ret tt)
    (fun error => console_error [VString unreachable_message; error]) ;;
  ret VUndefined.

(** ** Promises *)

Inductive promise_state (A : Type) : Type :=
| Fulfilled (a : A)
| RejectedWith (reason : js_value).

Arguments Fulfilled {A} a.
Arguments RejectedWith {A} reason.

(** Where an async function call stands when it hands control back to
    its caller: settled already, or suspended on a [fetch]. *)
Inductive suspension (A : Type) : Type :=
| Settled (s : promise_state A)
| Suspended (resource : jsstring) (init : RequestInit) (k : fetch_outcome -> async A).

Arguments Settled {A} s.
Arguments Suspended {A} resource init k.

(** The synchronous part of an async function call: everything up to
    the first [await]. *)
Fixpoint start {A} (m : async A) : list effect * suspension A :=
  match m with
  | Return a => ([], Settled (Fulfilled a))
  | Throw e => ([], Settled (RejectedWith e))
  | ConsoleError args k =>
      let (t, s) := start k in (EConsoleError args :: t, s)
  | AwaitFetch r i k => ([EFetch r i], Suspended r i k)
  end.

(** An async function body run until its promise settles, every [fetch]
    settling as the network says. *)
Fixpoint run {A} (net : network) (m : async A) : list effect * promise_state A :=
  match m with
  | Return a => ([], Fulfilled a)
  | Throw e => ([], RejectedWith e)
  | ConsoleError args k =>
      let (t, s) := run net k in (EConsoleError args :: t, s)
  | AwaitFetch r i k =>
      let (t, s) := run net (k (net r i)) in (EFetch r i :: t, s)
  end.

(** ** Listeners: synchronous code called by the browser *)

Inductive completion (A : Type) : Type :=
| Normal (a : A)
| Abrupt (thrown : js_value).

Arguments Normal {A} a.
Arguments Abrupt {A} thrown.

(** What the browser holds while a listener runs: the effects so far and
    the promises nobody awaits, each with the [fetch] it waits for. *)
Record host := {
  log : list effect;
  detached : list (jsstring * RequestInit * (fetch_outcome -> async js_value))
}.

Definition sync (A : Type) : Type := host -> completion A * host.

Definition sync_bind {A B} (m : sync A) (f : A -> sync B) : sync B :=
  fun h => match m h with
           | (Normal a, h') => f a h'
           | (Abrupt e, h') => (Abrupt e, h')
           end.

#[export] Instance sync_monad : Monad sync := {
  ret := fun A a h => (Normal a, h);
  bind := @sync_bind
}.

Definition emit (e : effect) : sync unit :=
  fun h => (Normal tt, {| log := log h ++ [e]; detached := detached h |}).

(** A call of an async function whose promise is dropped: the body runs
    up to its first [await], the rest is left to the event loop. *)
Definition call_async (m : async js_value) : sync unit :=
  fun h =>
    let (t, s) := start m in
    (Normal tt,
     match s with
     | Settled (Fulfilled _) =>
         {| log := log h ++ t; detached := detached h |}
     | Settled (RejectedWith e) =>
         {| log := log h ++ t ++ [EUnhandledRejection e]; detached := detached h |}
     | Suspended r i k =>
         {| log := log h ++ t; detached := detached h ++ [(r, i, k)] |}
     end).

(** The event loop settles a detached promise once its [fetch] has an
    outcome; a rejection nobody handles is reported by the browser. *)
Definition settle (net : network)
    (p : jsstring * RequestInit * (fetch_outcome -> async js_value)) : list effect :=
  let '(r, i, k) := p in
  match run net (k (net r i)) with
  | (t, Fulfilled _) => t
  | (t, RejectedWith e) => t ++ [EUnhandledRejection e]
  end.

Definition idle : host := {| log := []; detached := [] |}.

(** One event: the browser calls the listener, takes what it returns (or
    throws), then the detached promises run to their end. *)
Definition dispatch (net : network) (listener : sync js_value)
  : completion js_value * list effect :=
  let (c, h) := listener idle in
  (c, log h ++ flat_map (settle net) (detached h)).

(** ** The two listeners *)

Module webRequest.
Record details := { type : jsstring; url : jsstring }.
End webRequest.

Module downloads.
Record DownloadItem := { url : jsstring; filename : jsstring }.
End downloads.

(** The [suggest] callback the browser passes to a filename listener. *)
Definition suggest_callback := option FilenameSuggestion -> sync unit.

Definition host_suggest : suggest_callback := fun s => emit (ESuggest s).

Definition onBeforeRequest_listener (details : webRequest.details) : sync js_value :=
  if string_eqb (webRequest.type details) (js "xmlhttprequest")
     || string_eqb (webRequest.type details) (js "main_frame")
  then
    let url := webRequest.url details in
    let filename := pop (split url slash) in
    call_async (sendToCleanMaster (VString url) filename) ;;
    ret VUndefined
  else ret VUndefined.

Definition onDeterminingFilename_listener
    (downloadItem : downloads.DownloadItem) (suggest : suggest_callback) : sync js_value :=
  call_async (sendToCleanMaster (VString (downloads.url downloadItem))
                                (VString (downloads.filename downloadItem))) ;;
  ret VUndefined.

(** ** Reading a trace *)

Definition transmissions (t : list effect) : list (jsstring * RequestInit) :=
  flat_map (fun e => match e with EFetch r i => [(r, i)] | _ => [] end) t.

Definition suggestions (t : list effect) : list (option FilenameSuggestion) :=
  flat_map (fun e => match e with ESuggest s => [s] | _ => [] end) t.

Definition unhandled (t : list effect) : list js_value :=
  flat_map (fun e => match e with EUnhandledRejection r => [r] | _ => [] end) t.

(** ** The companion's side of the wire: reading the body back

    A reader for the JSON texts the extension can send: one object whose
    members are strings, without white space.  It is the means to say
    which fields a body carries. *)

Definition hex_value (c : code_unit) : option N :=
  if (0x30 <=? c) && (c <=? 0x39) then Some (c - 0x30)
  else if (0x61 <=? c) && (c <=? 0x66) then Some (c - 0x61 + 10)
  else if (0x41 <=? c) && (c <=? 0x46) then Some (c - 0x41 + 10)
  else None.

(** The character a two-character escape stands for. *)
Definition unescape (e : code_unit) : option code_unit :=
  if e =? quotation_mark then Some quotation_mark
  else if e =? reverse_solidus then Some reverse_solidus
  else if e =? slash then Some slash
  else if e =? 0x62 then Some 0x08
  else if e =? 0x66 then Some 0x0c
  else if e =? 0x6e then Some 0x0a
  else if e =? 0x72 then Some 0x0d
  else if e =? 0x74 then Some 0x09
  else None.

Definition prepend (c : code_unit) (r : jsstring * jsstring) : jsstring * jsstring :=
  (c :: fst r, snd r).

(** The characters of a JSON string after its opening quotation mark, up
    to the closing one; with them, the text that follows. *)
Fixpoint read_string_body (s : jsstring) : option (jsstring * jsstring) :=
  match s with
  | [] => None
  | c :: rest =>
      if c =? quotation_mark then Some ([], rest)
      else if c =? reverse_solidus then
        match rest with
        | [] => None
        | e :: rest1 =>
            if e =? 0x75 then
              match rest1 with
              | h3 :: h2 :: h1 :: h0 :: rest2 =>
                  match hex_value h3, hex_value h2, hex_value h1, hex_value h0 with
                  | Some x3, Some x2, Some x1, Some x0 =>
                      option_map (prepend (x3 * 4096 + x2 * 256 + x1 * 16 + x0))
                                 (read_string_body rest2)
                  | _, _, _, _ => None
                  end
              | _ => None
              end
            else
              match unescape e with
              | Some u => option_map (prepend u) (read_string_body rest1)
              | None => None
              end
        end
      else if c <? 0x20 then None
      else option_map (prepend c) (read_string_body rest)
  end.

Definition read_string (s : jsstring) : option (jsstring * jsstring) :=
  match s with
  | c :: rest => if c =? quotation_mark then read_string_body rest else None
  | [] => None
  end.

(** Members [key:value] separated by commas, up to the closing brace,
    which must end the text. *)
Fixpoint read_members (fuel : nat) (s : jsstring) : option (list (jsstring * jsstring)) :=
  match fuel with
  | O => None
  | S fuel' =>
      match read_string s with
      | Some (k, c :: rest) =>
          if c =? 0x3a then
            match read_string rest with
            | Some (v, d :: rest') =>
                if d =? 0x2c then option_map (cons (k, v)) (read_members fuel' rest')
                else if d =? 0x7d then
                  match rest' with [] => Some [(k, v)] | _ => None end
                else None
            | _ => None
            end
          else None
      | _ => None
      end
  end.

Definition read_object (s : jsstring) : option (list (jsstring * jsstring)) :=
  match s with
  | o :: rest =>
      if o =? 0x7b then
        match rest with
        | [c] => if c =? 0x7d then Some [] else None
        | _ => read_members (List.length rest) rest
        end
      else None
  | [] => None
  end.

(** An object all of whose properties are strings, and the text of one
    member. *)
Definition string_members (o : list (jsstring * jsstring)) : js_object :=
  map (fun kv => (fst kv, VString (snd kv))) o.

Definition member_text (kv : jsstring * jsstring) : jsstring :=
  QuoteJSONString (fst kv) ++ 0x3a :: QuoteJSONString (snd kv).

(** ** The spec's words for the request path

    "The substring of [url] following the last path delimiter", written
    without [split] and [pop]; a string without the delimiter is its own
    last segment. *)
Fixpoint after_last (sep : code_unit) (s : jsstring) : jsstring :=
  match s with
  | [] => []
  | c :: rest =>
      if existsb (N.eqb sep) rest then after_last sep rest
      else if c =? sep then rest
      else s
  end.

(** ** Vocabulary of the statements *)

(** The effects after the request has been issued, by outcome. *)
Definition after_fetch (o : fetch_outcome) : list effect :=
  match o with
  | Resolved r =>
      if ok r then [] else [EConsoleError [VString rejected_message]]
  | Rejected reason => [EConsoleError [VString unreachable_message; reason]]
  end.

(** The classifications the request listener reacts to. *)
Definition observed (type : jsstring) : Prop :=
  type = js "xmlhttprequest" \/ type = js "main_frame".

(** ** Sample events and networks *)

Definition report_url : jsstring := js "https://example.com/files/report.pdf".

Definition sample_item : downloads.DownloadItem :=
  {| downloads.url := report_url; downloads.filename := js "report.pdf" |}.

Definition page_load : webRequest.details :=
  {| webRequest.type := js "main_frame"; webRequest.url := report_url |}.

Definition not_found : Response := {| status := 404 |}.

Definition failed_to_fetch : js_value :=
  VError {| error_name := js "TypeError"; error_message := js "Failed to fetch" |}.

(** A companion that answers 404, and one that is not running. *)
Definition answers_404 : network := fun _ _ => Resolved not_found.
Definition is_down : network := fun _ _ => Rejected failed_to_fetch.

(** ** Vocabulary of the further properties *)

(** The arguments of every [console.error] call of a trace. *)
Definition diagnostics (t : list effect) : list (list js_value) :=
  flat_map (fun e => match e with EConsoleError a => [a] | _ => [] end) t.

(** A code unit [QuoteJSONString] copies as it is when it stands alone:
    no control character, quotation mark, backslash or surrogate. *)
Definition plain_unit (c : code_unit) : bool :=
  negb (c <? 0x20) && negb (c =? quotation_mark) && negb (c =? reverse_solidus)
  && negb (is_leading_surrogate c) && negb (is_trailing_surrogate c).

(** A string between quotation marks, nothing escaped. *)
Definition quoted (s : jsstring) : jsstring := quotation_mark :: s ++ [quotation_mark].

(** The properties of an object literal that [JSON.stringify] writes. *)
Definition defined_members (o : js_object) : js_object :=
  filter (fun kv => match snd kv with VUndefined => false | _ => true end) o.

(** Case analysis on a chain of comparisons of [c] with constants. *)
Ltac eqb_cases c :=
  repeat match goal with
         | |- context [c =? ?k] =>
             destruct (N.eqb_spec c k) as [->|?]; [reflexivity|]
         end.

(** ** Facts about [split] and [pop] *)

Lemma split_nonempty s sep : split s sep <> [].
Proof.
  destruct s as [|c rest]; simpl; [discriminate|].
  destruct (c =? sep); [discriminate|].
  destruct (split rest sep); discriminate.
Qed.

Lemma split_no_sep s sep : ~ In sep s -> split s sep = [s].
Proof.
  induction s as [|c rest IH]; intros H; [reflexivity|].
  simpl. destruct (N.eqb_spec c sep) as [->|_].
  - exfalso. apply H. now left.
  - rewrite IH; [reflexivity|]. intros Hin. apply H. now right.
Qed.

Lemma split_app_sep p q sep :
  split (p ++ sep :: q) sep = split p sep ++ split q sep.
Proof.
  induction p as [|c p IH]; simpl.
  - now rewrite N.eqb_refl.
  - rewrite IH. destruct (c =? sep); [reflexivity|].
    destruct (split p sep) eqn:E; [now apply split_nonempty in E | reflexivity].
Qed.

Lemma split_segments_no_sep s sep :
  Forall (fun seg => ~ In sep seg) (split s sep).
Proof.
  induction s as [|c rest IH]; simpl.
  - constructor; [intros [] | constructor].
  - destruct (N.eqb_spec c sep) as [->|Hne].
    + constructor; [intros [] | exact IH].
    + destruct (split rest sep) as [|seg segs]; [repeat constructor; intros [H|[]]; congruence|].
      inversion IH; subst. constructor; [|assumption].
      intros [H|H]; [congruence | contradiction].
Qed.

Lemma join_split s sep : join (split s sep) sep = s.
Proof.
  induction s as [|c rest IH]; [reflexivity|].
  simpl. destruct (c =? sep) eqn:E.
  - apply N.eqb_eq in E. subst c.
    destruct (split rest sep) eqn:S; [now apply split_nonempty in S|].
    simpl in *. now rewrite IH.
  - destruct (split rest sep) as [|seg [|seg' segs]] eqn:S;
      [now apply split_nonempty in S | |]; simpl in *; now rewrite <- IH.
Qed.

Lemma pop_app a b : b <> [] -> pop (a ++ b) = pop b.
Proof.
  intros Hb. induction a as [|x a IH]; [reflexivity|].
  simpl app. destruct (a ++ b) eqn:E.
  - destruct a; [simpl in E; congruence | discriminate].
  - exact IH.
Qed.

Lemma pop_split_is_string s sep : exists f, pop (split s sep) = VString f.
Proof.
  assert (H : forall a, a <> [] -> exists f, pop a = VString f).
  { induction a as [|x [|y t] IH]; intros Hne; [congruence | now exists x |].
    apply IH. discriminate. }
  apply H, split_nonempty.
Qed.

Lemma extract_filename_after_last_slash p q :
  ~ In slash q -> extract_filename (p ++ slash :: q) = VString q.
Proof.
  intros Hq. unfold extract_filename.
  rewrite split_app_sep, pop_app by apply split_nonempty.
  now rewrite split_no_sep.
Qed.

Lemma extract_filename_no_slash s :
  ~ In slash s -> extract_filename s = VString s.
Proof. intros H. unfold extract_filename. now rewrite split_no_sep. Qed.

(** ** The reader inverts [JSON.stringify] *)

Lemma hex_value_hex_digit n : n < 16 -> hex_value (hex_digit n) = Some n.
Proof.
  intros H. unfold hex_value, hex_digit.
  destruct (N.ltb_spec n 10).
  - replace ((0x30 <=? 0x30 + n) && (0x30 + n <=? 0x39)) with true.
    + f_equal. lia.
    + symmetry. apply andb_true_iff. split; apply N.leb_le; lia.
  - replace ((0x30 <=? 0x61 + (n - 10)) && (0x61 + (n - 10) <=? 0x39)) with false.
    + replace ((0x61 <=? 0x61 + (n - 10)) && (0x61 + (n - 10) <=? 0x66)) with true.
      * f_equal. lia.
      * symmetry. apply andb_true_iff. split; apply N.leb_le; lia.
    + symmetry. apply andb_false_iff. right. apply N.leb_gt. lia.
Qed.

Lemma hex_digits_value c :
  c < 65536 ->
  c = c / 4096 mod 16 * 4096 + c / 256 mod 16 * 256 + c / 16 mod 16 * 16 + c mod 16.
Proof.
  intros Hc.
  change 4096 with (16 * 16 * 16). change 256 with (16 * 16) at 1.
  rewrite <- !N.Div0.div_div.
  pose proof (N.div_mod' c 16) as H0.
  pose proof (N.div_mod' (c / 16) 16) as H1.
  pose proof (N.div_mod' (c / 16 / 16) 16) as H2.
  pose proof (N.mod_lt c 16) as L0.
  pose proof (N.mod_lt (c / 16) 16) as L1.
  pose proof (N.mod_lt (c / 16 / 16) 16) as L2.
  assert (L3 : c / 16 / 16 / 16 < 16).
  { rewrite !N.Div0.div_div. apply N.Div0.div_lt_upper_bound. exact Hc. }
  rewrite (N.mod_small _ _ L3).
  generalize dependent (c / 16 / 16 / 16). intros q3.
  generalize dependent (c / 16 / 16 mod 16). intros r2.
  generalize dependent (c / 16 / 16). intros q2.
  generalize dependent (c / 16 mod 16). intros r1.
  generalize dependent (c / 16). intros q1.
  generalize dependent (c mod 16). intros r0. intros. lia.
Qed.

Lemma read_string_body_raw c t :
  c <> quotation_mark -> c <> reverse_solidus -> 0x20 <= c ->
  read_string_body (c :: t) = option_map (prepend c) (read_string_body t).
Proof.
  intros Hq Hb Hc. cbn [read_string_body].
  apply N.eqb_neq in Hq, Hb. rewrite Hq, Hb.
  destruct (N.ltb_spec c 0x20); [lia | reflexivity].
Qed.

Lemma read_string_body_UnicodeEscape c t :
  c < 65536 ->
  read_string_body (UnicodeEscape c ++ t) = option_map (prepend c) (read_string_body t).
Proof.
  intros Hc. unfold UnicodeEscape.
  cbn [app read_string_body].
  change (reverse_solidus =? quotation_mark) with false.
  change (reverse_solidus =? reverse_solidus) with true.
  change (0x75 =? 0x75) with true. cbv iota.
  rewrite !hex_value_hex_digit by (apply N.mod_lt; discriminate).
  do 2 f_equal. symmetry. apply hex_digits_value, Hc.
Qed.

Lemma read_string_body_quote_unit c t :
  read_string_body (quote_unit c ++ t) = option_map (prepend c) (read_string_body t).
Proof.
  unfold quote_unit. eqb_cases c.
  destruct ((c <? 0x20) || is_leading_surrogate c || is_trailing_surrogate c) eqn:E.
  - apply read_string_body_UnicodeEscape.
    unfold is_leading_surrogate, is_trailing_surrogate in E.
    rewrite !orb_true_iff, !andb_true_iff, N.ltb_lt, !N.leb_le in E. lia.
  - rewrite !orb_false_iff in E. destruct E as [[E _] _].
    apply N.ltb_ge in E. now apply read_string_body_raw.
Qed.

Lemma read_string_body_surrogate c t :
  is_leading_surrogate c || is_trailing_surrogate c = true ->
  read_string_body (c :: t) = option_map (prepend c) (read_string_body t).
Proof.
  unfold is_leading_surrogate, is_trailing_surrogate.
  rewrite orb_true_iff, !andb_true_iff, !N.leb_le. intros H.
  apply read_string_body_raw; unfold quotation_mark, reverse_solidus; lia.
Qed.

Lemma read_string_body_quote_units s t :
  read_string_body (quote_units s ++ quotation_mark :: t) = Some (s, t).
Proof.
  remember (List.length s) as n eqn:Hn.
  revert s Hn. induction n as [n IH] using lt_wf_ind. intros s Hn.
  destruct s as [|c rest]; [reflexivity|].
  cbn [quote_units].
  destruct (is_leading_surrogate c) eqn:Lc.
  - destruct rest as [|d rest'].
    + rewrite read_string_body_UnicodeEscape; [reflexivity|].
      unfold is_leading_surrogate in Lc.
      rewrite andb_true_iff, !N.leb_le in Lc. lia.
    + destruct (is_trailing_surrogate d) eqn:Td.
      * cbn [app].
        rewrite !read_string_body_surrogate by (rewrite ?Lc, ?Td, ?orb_true_r; reflexivity).
        rewrite (IH (List.length rest')) by (subst n; simpl; lia || reflexivity).
        reflexivity.
      * rewrite <- app_assoc, read_string_body_UnicodeEscape.
        -- rewrite (IH (List.length (d :: rest'))) by (subst n; simpl; lia || reflexivity).
           reflexivity.
        -- unfold is_leading_surrogate in Lc.
           rewrite andb_true_iff, !N.leb_le in Lc. lia.
  - rewrite <- app_assoc, read_string_body_quote_unit.
    rewrite (IH (List.length rest)) by (subst n; simpl; lia || reflexivity).
    reflexivity.
Qed.

Lemma read_string_QuoteJSONString s t :
  read_string (QuoteJSONString s ++ t) = Some (s, t).
Proof.
  unfold QuoteJSONString, read_string. cbn [app].
  rewrite N.eqb_refl, <- app_assoc. apply read_string_body_quote_units.
Qed.

Lemma serialize_string_members o :
  serialize_members (string_members o) = map member_text o.
Proof.
  induction o as [|[k v] o IH]; [reflexivity|].
  simpl. now rewrite IH.
Qed.

Lemma read_members_join fuel o :
  o <> [] -> (List.length o <= fuel)%nat ->
  read_members fuel (join (map member_text o) 0x2c ++ [0x7d]) = Some o.
Proof.
  revert fuel. induction o as [|[k v] o IH]; intros fuel Hne Hf; [congruence|].
  destruct fuel as [|fuel]; [simpl in Hf; lia|].
  destruct o as [|kv o].
  - cbn [map join read_members]. unfold member_text. cbn [fst snd].
    rewrite <- ?app_assoc. cbn [app].
    rewrite read_string_QuoteJSONString. cbn [N.eqb Pos.eqb].
    now rewrite read_string_QuoteJSONString.
  - change (join (map member_text ((k, v) :: kv :: o)) 0x2c)
      with (member_text (k, v) ++ 0x2c :: join (map member_text (kv :: o)) 0x2c).
    cbn [read_members]. unfold member_text at 1. cbn [fst snd].
    rewrite <- ?app_assoc. cbn [app].
    rewrite read_string_QuoteJSONString. cbn [N.eqb Pos.eqb].
    rewrite <- ?app_assoc. cbn [app].
    rewrite read_string_QuoteJSONString. cbn [N.eqb Pos.eqb].
    rewrite IH; [reflexivity | discriminate | simpl in *; lia].
Qed.

Lemma join_length_ge (a : list jsstring) sep :
  (List.length a <= List.length (join a sep) + 1)%nat.
Proof.
  induction a as [|x [|y a] IH]; simpl in *; try lia.
  rewrite length_app. simpl. lia.
Qed.

Lemma read_object_JSON_stringify o :
  read_object (JSON_stringify (string_members o)) = Some o.
Proof.
  unfold JSON_stringify, read_object. rewrite serialize_string_members.
  cbn [N.eqb Pos.eqb].
  destruct o as [|kv o]; [reflexivity|].
  destruct (join (map member_text (kv :: o)) 0x2c ++ [0x7d]) as [|c [|c' r]] eqn:E.
  - now destruct (join (map member_text (kv :: o)) 0x2c).
  - exfalso. destruct kv as [k v]. destruct o; simpl in E; inversion E;
      match goal with H : _ ++ _ = [] |- _ => apply app_eq_nil in H; destruct H; discriminate end.
  - rewrite <- E. apply read_members_join; [discriminate|].
    rewrite length_app, <- (length_map member_text).
    pose proof (join_length_ge (map member_text (kv :: o)) 0x2c). simpl in *. lia.
Qed.

(** ** The code's extraction is the spec's last segment *)

Lemma existsb_eqb_In sep (s : jsstring) : existsb (N.eqb sep) s = true <-> In sep s.
Proof.
  rewrite existsb_exists. split.
  - intros [x [Hx E]]. apply N.eqb_eq in E. now subst.
  - intros H. exists sep. split; [assumption | apply N.eqb_refl].
Qed.

Lemma after_last_no_sep sep s : ~ In sep s -> after_last sep s = s.
Proof.
  destruct s as [|c rest]; [reflexivity|]. intros H. simpl.
  destruct (existsb (N.eqb sep) rest) eqn:E.
  - apply existsb_eqb_In in E. exfalso. apply H. now right.
  - destruct (N.eqb_spec c sep) as [->|_]; [|reflexivity].
    exfalso. apply H. now left.
Qed.

Lemma after_last_app_sep sep p q :
  ~ In sep q -> after_last sep (p ++ sep :: q) = q.
Proof.
  intros Hq. induction p as [|c p IH]; simpl.
  - destruct (existsb (N.eqb sep) q) eqn:E.
    + now apply existsb_eqb_In in E.
    + now rewrite N.eqb_refl.
  - replace (existsb (N.eqb sep) (p ++ sep :: q)) with true; [exact IH|].
    symmetry. apply existsb_eqb_In, in_or_app. right. now left.
Qed.

Lemma last_occurrence sep (s : jsstring) :
  In sep s -> exists p q, s = p ++ sep :: q /\ ~ In sep q.
Proof.
  induction s as [|c rest IH]; intros H; [contradiction|].
  destruct (in_dec N.eq_dec sep rest) as [Hin|Hnot].
  - destruct (IH Hin) as (p & q & -> & Hq). now exists (c :: p), q.
  - destruct H as [->|H]; [|contradiction]. now exists [], rest.
Qed.

Lemma extract_filename_after_last url :
  extract_filename url = VString (after_last slash url).
Proof.
  destruct (in_dec N.eq_dec slash url) as [Hin|Hnot].
  - destruct (last_occurrence _ _ Hin) as (p & q & -> & Hq).
    now rewrite extract_filename_after_last_slash, after_last_app_sep.
  - now rewrite extract_filename_no_slash, after_last_no_sep.
Qed.

(** ** What [sendToCleanMaster] does *)

Lemma string_eqb_eq a b : string_eqb a b = true <-> a = b.
Proof.
  unfold string_eqb. destruct (list_eq_dec N.eq_dec a b); split; congruence.
Qed.

Lemma run_sendToCleanMaster net url filename :
  run net (sendToCleanMaster url filename) =
  (EFetch endpoint (notification_request url filename)
     :: after_fetch (net endpoint (notification_request url filename)),
   Fulfilled VUndefined).
Proof.
  unfold sendToCleanMaster. cbn -[endpoint notification_request].
  destruct (net endpoint (notification_request url filename)) as [r|reason];
    cbn -[endpoint notification_request].
  - destruct (ok r); reflexivity.
  - reflexivity.
Qed.

Lemma start_sendToCleanMaster url filename :
  exists k,
    start (sendToCleanMaster url filename) =
    ([EFetch endpoint (notification_request url filename)],
     Suspended endpoint (notification_request url filename) k) /\
    forall o, run (fun _ _ => o) (k o) = (after_fetch o, Fulfilled VUndefined).
Proof.
  eexists. split; [reflexivity|].
  intros [r|reason]; cbn; [destruct (ok r)|]; reflexivity.
Qed.

(** A listener that calls an async function and drops the promise. *)
Lemma start_run {A} net (m : async A) :
  match start m with
  | (t, Settled s) => run net m = (t, s)
  | (t, Suspended r i k) =>
      run net m = (t ++ fst (run net (k (net r i))), snd (run net (k (net r i))))
  end.
Proof.
  induction m as [a|e|args k IH|r i k IH]; cbn; try reflexivity.
  - destruct (start k) as [t [s|r i k']]; rewrite IH; [reflexivity|].
    destruct (run net (k' (net r i))); reflexivity.
  - destruct (run net (k (net r i))); reflexivity.
Qed.

Lemma dispatch_call_async net (m : async js_value) (v : js_value) :
  dispatch net (call_async m ;; ret v) =
  (Normal v,
   match run net m with
   | (t, Fulfilled _) => t
   | (t, RejectedWith e) => t ++ [EUnhandledRejection e]
   end).
Proof.
  unfold dispatch. cbn. unfold sync_bind, call_async.
  pose proof (start_run net m) as H.
  destruct (start m) as [t [[a|e]|r i k]]; cbn; rewrite H; cbn.
  - now rewrite app_nil_r.
  - now rewrite app_nil_r.
  - destruct (run net (k (net r i))) as [t' [a|e]]; cbn.
    + now rewrite app_nil_r.
    + now rewrite app_nil_r, app_assoc.
Qed.

Lemma dispatch_onDeterminingFilename net item suggest :
  dispatch net (onDeterminingFilename_listener item suggest) =
  (Normal VUndefined,
   EFetch endpoint (notification_request (VString (downloads.url item))
                                         (VString (downloads.filename item)))
     :: after_fetch (net endpoint
                       (notification_request (VString (downloads.url item))
                                             (VString (downloads.filename item))))).
Proof.
  unfold onDeterminingFilename_listener.
  now rewrite dispatch_call_async, run_sendToCleanMaster.
Qed.

Lemma observed_dec type :
  string_eqb type (js "xmlhttprequest") || string_eqb type (js "main_frame") = true
  <-> observed type.
Proof. unfold observed. now rewrite orb_true_iff, !string_eqb_eq. Qed.

Lemma dispatch_onBeforeRequest net details :
  dispatch net (onBeforeRequest_listener details) =
  (Normal VUndefined,
   if string_eqb (webRequest.type details) (js "xmlhttprequest")
      || string_eqb (webRequest.type details) (js "main_frame")
   then
     let init := notification_request
                   (VString (webRequest.url details))
                   (VString (after_last slash (webRequest.url details))) in
     EFetch endpoint init :: after_fetch (net endpoint init)
   else []).
Proof.
  unfold onBeforeRequest_listener.
  destruct (string_eqb (webRequest.type details) (js "xmlhttprequest")
            || string_eqb (webRequest.type details) (js "main_frame")).
  - fold (extract_filename (webRequest.url details)).
    now rewrite extract_filename_after_last, dispatch_call_async, run_sendToCleanMaster.
  - reflexivity.
Qed.

Lemma transmissions_after_fetch o : transmissions (after_fetch o) = [].
Proof. destruct o as [r|e]; simpl; [destruct (ok r)|]; reflexivity. Qed.

Lemma suggestions_after_fetch o : suggestions (after_fetch o) = [].
Proof. destruct o as [r|e]; simpl; [destruct (ok r)|]; reflexivity. Qed.

Lemma unhandled_after_fetch o : unhandled (after_fetch o) = [].
Proof. destruct o as [r|e]; simpl; [destruct (ok r)|]; reflexivity. Qed.

Lemma read_notification url filename :
  read_object (body (notification_request (VString url) (VString filename))) =
  Some [(js "type", js "download"); (js "url", url); (js "filename", filename)].
Proof.
  exact (read_object_JSON_stringify
           [(js "type", js "download"); (js "url", url); (js "filename", filename)]).
Qed.

(** ** The claims *)

(** C1: for every download-determination event exactly one transmission
    attempt occurs, and the notification it carries has the event's own
    [url] and [filename], unaltered: the request is the one built from
    these two strings, and the body read back yields them. *)
Theorem C1_download_event_relayed_once_verbatim
    (net : network) (downloadItem : downloads.DownloadItem) (suggest : suggest_callback) :
  exists init,
    transmissions (snd (dispatch net (onDeterminingFilename_listener downloadItem suggest)))
      = [(endpoint, init)] /\
    init = notification_request (VString (downloads.url downloadItem))
                                (VString (downloads.filename downloadItem)) /\
    read_object (body init) =
      Some [(js "type", js "download");
            (js "url", downloads.url downloadItem);
            (js "filename", downloads.filename downloadItem)].
Proof.
  eexists. rewrite dispatch_onDeterminingFilename. cbn [snd transmissions flat_map app].
  fold (transmissions (after_fetch
          (net endpoint (notification_request (VString (downloads.url downloadItem))
                                              (VString (downloads.filename downloadItem)))))).
  rewrite transmissions_after_fetch.
  split; [reflexivity|]. split; [reflexivity|]. apply read_notification.
Qed.

(** C2: for every request-observation event a transmission attempt occurs
    if and only if the event's type is [xmlhttprequest] or [main_frame];
    then there is exactly one, whose [filename] is the last segment of the
    event's [url] (what follows the last [/]); an event of any other type
    has no effect at all and the listener returns [undefined]. *)
Theorem C2_request_event_relayed_iff_observed
    (net : network) (details : webRequest.details) :
  let r := dispatch net (onBeforeRequest_listener details) in
  (transmissions (snd r) <> [] <-> observed (webRequest.type details)) /\
  (observed (webRequest.type details) ->
   exists filename init,
     extract_filename (webRequest.url details) = VString filename /\
     filename = after_last slash (webRequest.url details) /\
     transmissions (snd r) = [(endpoint, init)] /\
     init = notification_request (VString (webRequest.url details)) (VString filename) /\
     read_object (body init) =
       Some [(js "type", js "download");
             (js "url", webRequest.url details);
             (js "filename", filename)]) /\
  (~ observed (webRequest.type details) -> r = (Normal VUndefined, [])).
Proof.
  cbv zeta. rewrite dispatch_onBeforeRequest. cbn [snd].
  pose proof (observed_dec (webRequest.type details)) as Hdec.
  destruct (string_eqb (webRequest.type details) (js "xmlhttprequest")
            || string_eqb (webRequest.type details) (js "main_frame")).
  - assert (Hobs : observed (webRequest.type details)) by now apply Hdec.
    cbv zeta. cbn [transmissions flat_map app].
    match goal with |- context [flat_map ?f (after_fetch ?o)] =>
      change (flat_map f (after_fetch o)) with (transmissions (after_fetch o));
      rewrite (transmissions_after_fetch o)
    end.
    split; [split; [intros _; exact Hobs | discriminate]|].
    split; [|intros H; contradiction].
    intros _. eexists. eexists.
    split; [apply extract_filename_after_last|].
    split; [reflexivity|]. split; [reflexivity|]. split; [reflexivity|].
    apply read_notification.
  - assert (Hno : ~ observed (webRequest.type details)).
    { intros H. apply Hdec in H. discriminate. }
    split; [split; [intros H; now contradiction H | intros H; contradiction]|].
    split; [intros H; contradiction | reflexivity].
Qed.

Lemma C2_request_event_witness :
  observed (webRequest.type page_load) /\
  exists filename init,
    extract_filename (webRequest.url page_load) = VString filename /\
    filename = after_last slash (webRequest.url page_load) /\
    transmissions (snd (dispatch answers_404 (onBeforeRequest_listener page_load)))
      = [(endpoint, init)] /\
    init = notification_request (VString (webRequest.url page_load)) (VString filename) /\
    read_object (body init) =
      Some [(js "type", js "download");
            (js "url", webRequest.url page_load);
            (js "filename", filename)].
Proof.
  assert (H : observed (webRequest.type page_load)) by (right; reflexivity).
  split; [exact H|].
  exact (proj1 (proj2 (C2_request_event_relayed_iff_observed answers_404 page_load)) H).
Defined.

(** C3: every call of [sendToCleanMaster] issues exactly one request,
    whatever the outcome (no retry): a POST to [http://localhost:8080]
    (host [localhost], port [8080], nothing after the port), with the one
    header [Content-Type: application/json] and a JSON body whose members
    are exactly [type], [url] and [filename], in this order, [type] being
    the constant [download] and the other two the strings given. *)
Theorem C3_one_post_fixed_endpoint_three_fields
    (net : network) (url filename : jsstring) :
  exists init,
    transmissions (fst (run net (sendToCleanMaster (VString url) (VString filename))))
      = [(endpoint, init)] /\
    endpoint = js "http://" ++ js "localhost" ++ js ":" ++ js "8080" /\
    method init = js "POST" /\
    headers init = [(js "Content-Type", js "application/json")] /\
    body init =
      js "{" ++ QuoteJSONString (js "type") ++ js ":" ++ QuoteJSONString (js "download")
      ++ js "," ++ QuoteJSONString (js "url") ++ js ":" ++ QuoteJSONString url
      ++ js "," ++ QuoteJSONString (js "filename") ++ js ":" ++ QuoteJSONString filename
      ++ js "}" /\
    read_object (body init) =
      Some [(js "type", js "download"); (js "url", url); (js "filename", filename)].
Proof.
  exists (notification_request (VString url) (VString filename)).
  rewrite run_sendToCleanMaster. cbn [fst].
  split.
  - change (transmissions (?e :: ?t)) with (transmissions [e] ++ transmissions t).
    now rewrite transmissions_after_fetch.
  - split; [reflexivity|]. split; [reflexivity|]. split; [reflexivity|].
    split; [|apply read_notification].
    unfold notification_request, notification, JSON_stringify.
    cbn [body serialize_members SerializeJSONProperty join].
    change (js "{") with [0x7b]. change (js ":") with [0x3a].
    change (js ",") with [0x2c]. change (js "}") with [0x7d].
    cbn [app]. f_equal.
    repeat (rewrite <- app_assoc || rewrite <- app_comm_cons). reflexivity.
Qed.

(** C4: when the companion answers with a status outside 200..299, the
    only effect after the request is one [console.error] with the fixed
    message; the promise of [sendToCleanMaster] is fulfilled, both
    listeners return [undefined] normally, nothing is thrown or left as
    an unhandled rejection, and the request is not issued again. *)
Theorem C4_rejected_delivery_is_only_logged
    (net : network) (r : Response)
    (Hstatus : (status r < 200 \/ 299 < status r)%Z) :
  (forall url filename,
     net endpoint (notification_request url filename) = Resolved r ->
     run net (sendToCleanMaster url filename) =
       ([EFetch endpoint (notification_request url filename);
         EConsoleError [VString rejected_message]],
        Fulfilled VUndefined)) /\
  (forall downloadItem suggest,
     let init := notification_request (VString (downloads.url downloadItem))
                                      (VString (downloads.filename downloadItem)) in
     net endpoint init = Resolved r ->
     dispatch net (onDeterminingFilename_listener downloadItem suggest) =
       (Normal VUndefined,
        [EFetch endpoint init; EConsoleError [VString rejected_message]])) /\
  (forall details,
     let init := notification_request (VString (webRequest.url details))
                                      (extract_filename (webRequest.url details)) in
     observed (webRequest.type details) ->
     net endpoint init = Resolved r ->
     dispatch net (onBeforeRequest_listener details) =
       (Normal VUndefined,
        [EFetch endpoint init; EConsoleError [VString rejected_message]])).
Proof.
  assert (Hok : ok r = false).
  { unfold ok. apply andb_false_iff.
    destruct Hstatus; [left; apply Z.leb_gt | right; apply Z.leb_gt]; assumption. }
  split; [|split].
  - intros url filename Hnet.
    now rewrite run_sendToCleanMaster, Hnet; cbn [after_fetch]; rewrite Hok.
  - intros downloadItem suggest init Hnet. subst init.
    now rewrite dispatch_onDeterminingFilename, Hnet; cbn [after_fetch]; rewrite Hok.
  - intros details init Hobs Hnet. subst init.
    rewrite extract_filename_after_last in *.
    rewrite dispatch_onBeforeRequest. apply observed_dec in Hobs. rewrite Hobs.
    cbv zeta. now rewrite Hnet; cbn [after_fetch]; rewrite Hok.
Qed.

Lemma C4_rejected_delivery_witness :
  (status not_found < 200 \/ 299 < status not_found)%Z /\
  dispatch answers_404 (onDeterminingFilename_listener sample_item host_suggest) =
    (Normal VUndefined,
     [EFetch endpoint (notification_request (VString report_url) (VString (js "report.pdf")));
      EConsoleError [VString rejected_message]]).
Proof.
  assert (H : (status not_found < 200 \/ 299 < status not_found)%Z) by (right; reflexivity).
  split; [exact H|].
  exact (proj1 (proj2 (C4_rejected_delivery_is_only_logged answers_404 not_found H))
           sample_item host_suggest eq_refl).
Defined.

(** C5: for every outcome of the request (a response of any status, a
    rejection with any reason) the promise of [sendToCleanMaster] is
    fulfilled with [undefined]; when [fetch] rejects, the reason is caught
    and passed to one [console.error], and that is all; both listeners
    return normally and leave no unhandled rejection. *)
Theorem C5_unreachable_delivery_is_caught_and_logged :
  (forall (net : network) url filename,
     snd (run net (sendToCleanMaster url filename)) = Fulfilled VUndefined) /\
  (forall (net : network) url filename reason,
     net endpoint (notification_request url filename) = Rejected reason ->
     fst (run net (sendToCleanMaster url filename)) =
       [EFetch endpoint (notification_request url filename);
        EConsoleError [VString unreachable_message; reason]]) /\
  (forall (net : network) downloadItem suggest,
     let r := dispatch net (onDeterminingFilename_listener downloadItem suggest) in
     fst r = Normal VUndefined /\ unhandled (snd r) = []) /\
  (forall (net : network) details,
     let r := dispatch net (onBeforeRequest_listener details) in
     fst r = Normal VUndefined /\ unhandled (snd r) = []).
Proof.
  split; [|split; [|split]].
  - intros. now rewrite run_sendToCleanMaster.
  - intros net url filename reason Hnet.
    now rewrite run_sendToCleanMaster, Hnet.
  - intros net downloadItem suggest. cbv zeta.
    rewrite dispatch_onDeterminingFilename. split; [reflexivity|].
    cbn [snd]. change (unhandled (?e :: ?t)) with (unhandled [e] ++ unhandled t).
    now rewrite unhandled_after_fetch.
  - intros net details. cbv zeta.
    rewrite dispatch_onBeforeRequest. split; [reflexivity|]. cbn [snd].
    destruct (string_eqb (webRequest.type details) (js "xmlhttprequest")
              || string_eqb (webRequest.type details) (js "main_frame")); [|reflexivity].
    cbv zeta. change (unhandled (?e :: ?t)) with (unhandled [e] ++ unhandled t).
    now rewrite unhandled_after_fetch.
Qed.

Lemma C5_unreachable_delivery_witness :
  is_down endpoint (notification_request (VString report_url) (VString (js "report.pdf")))
    = Rejected failed_to_fetch /\
  fst (run is_down (sendToCleanMaster (VString report_url) (VString (js "report.pdf")))) =
    [EFetch endpoint (notification_request (VString report_url) (VString (js "report.pdf")));
     EConsoleError [VString unreachable_message; failed_to_fetch]].
Proof.
  split; [reflexivity|].
  exact (proj1 (proj2 C5_unreachable_delivery_is_caught_and_logged)
           is_down (VString report_url) (VString (js "report.pdf")) failed_to_fetch eq_refl).
Defined.

(** C6: neither listener overrides the host's defaults.  For every
    request-observation event the request listener returns [undefined],
    which is no blocking or redirect directive; for every
    download-determination event the filename listener returns
    [undefined] and never calls [suggest]: no [suggest] call is in the
    trace, and the listener is the same whatever callback it is given. *)
Theorem C6_listeners_return_no_override
    (net : network) (details : webRequest.details)
    (downloadItem : downloads.DownloadItem) (suggest : suggest_callback) :
  fst (dispatch net (onBeforeRequest_listener details)) = Normal VUndefined /\
  suggestions (snd (dispatch net (onBeforeRequest_listener details))) = [] /\
  fst (dispatch net (onDeterminingFilename_listener downloadItem host_suggest))
    = Normal VUndefined /\
  suggestions (snd (dispatch net (onDeterminingFilename_listener downloadItem host_suggest)))
    = [] /\
  onDeterminingFilename_listener downloadItem suggest
    = onDeterminingFilename_listener downloadItem host_suggest.
Proof.
  rewrite dispatch_onBeforeRequest, dispatch_onDeterminingFilename. cbn [fst snd].
  split; [reflexivity|]. split.
  - destruct (string_eqb (webRequest.type details) (js "xmlhttprequest")
              || string_eqb (webRequest.type details) (js "main_frame")); [|reflexivity].
    cbv zeta. change (suggestions (?e :: ?t)) with (suggestions [e] ++ suggestions t).
    now rewrite suggestions_after_fetch.
  - split; [reflexivity|]. split; [|reflexivity].
    change (suggestions (?e :: ?t)) with (suggestions [e] ++ suggestions t).
    now rewrite suggestions_after_fetch.
Qed.

(** C7: the extraction of the request path applied to
    [https://example.com/files/report.pdf] yields [report.pdf], and this
    is the [filename] the listener sends for a page load of that url. *)
Theorem C7_extraction_of_report_pdf :
  extract_filename (js "https://example.com/files/report.pdf") = VString (js "report.pdf") /\
  forall net : network,
    transmissions
      (snd (dispatch net
              (onBeforeRequest_listener
                 {| webRequest.type := js "main_frame";
                    webRequest.url := js "https://example.com/files/report.pdf" |})))
    = [(endpoint,
        notification_request (VString (js "https://example.com/files/report.pdf"))
                             (VString (js "report.pdf")))].
Proof.
  split; [reflexivity|].
  intros net. rewrite dispatch_onBeforeRequest.
  change (string_eqb _ _ || string_eqb _ _) with true. cbv iota zeta. cbn [snd].
  change (transmissions (?e :: ?t)) with (transmissions [e] ++ transmissions t).
  rewrite transmissions_after_fetch. reflexivity.
Qed.

(** C8: a url with nothing after its last [/] yields the empty string; in
    particular [https://example.com/] yields the empty string. *)
Theorem C8_extraction_without_trailing_segment :
  (forall prefix : jsstring, extract_filename (prefix ++ [slash]) = VString []) /\
  extract_filename (js "https://example.com/") = VString (js "").
Proof.
  split; [|reflexivity].
  intros prefix. apply extract_filename_after_last_slash. intros [].
Qed.

(** C9: for a url that contains no [/] at all, the extraction returns the
    whole url, unchanged. *)
Theorem C9_extraction_without_slash (url : jsstring) :
  ~ In slash url -> extract_filename url = VString url.
Proof. apply extract_filename_no_slash. Qed.

Lemma C9_extraction_without_slash_witness :
  ~ In slash (js "report.pdf") /\
  extract_filename (js "report.pdf") = VString (js "report.pdf").
Proof.
  assert (H : ~ In slash (js "report.pdf")).
  { intros H. apply existsb_eqb_In in H. discriminate H. }
  split; [exact H|]. exact (C9_extraction_without_slash (js "report.pdf") H).
Defined.

(** C10: the extraction splits the raw url on [/], so a query string or a
    fragment that follows the last [/] stays in the extracted filename:
    for a name and a tail without [/], separated by [?] or [#], the
    result is the name, the mark and the tail;
    [https://example.com/report.pdf?x=1] yields [report.pdf?x=1], not
    [report.pdf]; and a [/] inside the query is a delimiter like any
    other. *)
Theorem C10_extraction_keeps_query_and_fragment :
  (forall (base name tail : jsstring) (mark : code_unit),
     mark = 0x3f \/ mark = 0x23 ->
     ~ In slash name -> ~ In slash tail ->
     extract_filename (base ++ slash :: name ++ mark :: tail)
       = VString (name ++ mark :: tail)) /\
  extract_filename (js "https://example.com/report.pdf?x=1") = VString (js "report.pdf?x=1") /\
  extract_filename (js "https://example.com/report.pdf?x=1") <> VString (js "report.pdf") /\
  extract_filename (js "https://example.com/report.pdf?next=/home") = VString (js "home").
Proof.
  split; [|split; [reflexivity | split; [discriminate | reflexivity]]].
  intros base name tail mark Hmark Hname Htail.
  apply extract_filename_after_last_slash.
  intros H. apply in_app_or in H. destruct H as [H|[H|H]]; [contradiction | | contradiction].
  destruct Hmark; subst mark; discriminate H.
Qed.

Lemma C10_extraction_keeps_query_witness :
  extract_filename (js "https://example.com" ++ slash :: js "report.pdf" ++ 0x3f :: js "x=1")
    = VString (js "report.pdf" ++ 0x3f :: js "x=1").
Proof.
  apply (proj1 C10_extraction_keeps_query_and_fragment).
  - left; reflexivity.
  - intros H. apply existsb_eqb_In in H. discriminate H.
  - intros H. apply existsb_eqb_In in H. discriminate H.
Defined.

(** ** Further properties: the extraction of the request path *)

Lemma extract_filename_drops_prefix p q :
  extract_filename (p ++ slash :: q) = extract_filename q.
Proof.
  unfold extract_filename.
  now rewrite split_app_sep, pop_app by apply split_nonempty.
Qed.

Lemma split_length s sep :
  List.length (split s sep) = S (count_occ N.eq_dec s sep).
Proof.
  induction s as [|c rest IH]; [reflexivity|].
  simpl. destruct (N.eqb_spec c sep) as [->|Hne].
  - destruct (N.eq_dec sep sep) as [_|H]; [|congruence]. simpl. now rewrite IH.
  - destruct (N.eq_dec c sep) as [H|_]; [congruence|].
    destruct (split rest sep) as [|seg segs] eqn:E; [now apply split_nonempty in E|].
    simpl in *. exact IH.
Qed.

Lemma extract_filename_characterized (url : jsstring) :
  exists filename,
    extract_filename url = VString filename /\
    ~ In slash filename /\
    (url = filename \/ exists prefix, url = prefix ++ slash :: filename).
Proof.
  destruct (in_dec N.eq_dec slash url) as [Hin|Hnot].
  - destruct (last_occurrence _ _ Hin) as (p & q & -> & Hq).
    exists q. rewrite extract_filename_after_last_slash by assumption.
    split; [reflexivity|]. split; [assumption|]. right. now exists p.
  - exists url. rewrite extract_filename_no_slash by assumption.
    split; [reflexivity|]. split; [assumption|]. now left.
Qed.

(** X1: for every url the extraction yields a string, never [undefined];
    this string contains no [/], and the url is either that string or
    ends with a [/] followed by it. *)
Theorem extraction_is_the_slash_free_suffix (url : jsstring) :
  exists filename,
    extract_filename url = VString filename /\
    ~ In slash filename /\
    (url = filename \/ exists prefix, url = prefix ++ slash :: filename).
Proof. apply extract_filename_characterized. Qed.

(** X2: whatever precedes a [/] is irrelevant: the extraction of
    [prefix/rest] is the extraction of [rest], also when [rest] has
    further delimiters. *)
Theorem extraction_ignores_what_precedes_a_slash (prefix rest : jsstring) :
  extract_filename (prefix ++ slash :: rest) = extract_filename rest.
Proof. apply extract_filename_drops_prefix. Qed.

(** X3: the extraction is idempotent: applied to a filename it has
    produced, it returns that filename. *)
Theorem extraction_is_idempotent (url filename : jsstring) :
  extract_filename url = VString filename ->
  extract_filename filename = VString filename.
Proof.
  intros H. destruct (extract_filename_characterized url) as (f & Hf & Hno & _).
  rewrite H in Hf. injection Hf as <-. now apply extract_filename_no_slash.
Qed.

Lemma extraction_is_idempotent_witness :
  extract_filename report_url = VString (js "report.pdf") /\
  extract_filename (js "report.pdf") = VString (js "report.pdf").
Proof.
  split; [reflexivity|].
  exact (extraction_is_idempotent report_url (js "report.pdf") eq_refl).
Defined.

(** X4: [split] loses nothing: the segments joined again with the
    separator are the string that was split. *)
Theorem split_then_join_is_identity (s : jsstring) (sep : code_unit) :
  join (split s sep) sep = s.
Proof. apply join_split. Qed.

(** X5: [split] yields one segment more than the string has separators,
    so never an empty array, and no segment contains the separator. *)
Theorem split_segments_count_and_content (s : jsstring) (sep : code_unit) :
  List.length (split s sep) = S (count_occ N.eq_dec s sep) /\
  Forall (fun seg => ~ In sep seg) (split s sep).
Proof. split; [apply split_length | apply split_segments_no_sep]. Qed.

(** ** Further properties: the request and its body *)

Lemma quote_units_plain s : forallb plain_unit s = true -> quote_units s = s.
Proof.
  induction s as [|c rest IH]; [reflexivity|].
  cbn [forallb]. rewrite andb_true_iff. intros [Hc Hrest].
  unfold plain_unit in Hc. rewrite !andb_true_iff, !negb_true_iff in Hc.
  destruct Hc as [[[[Hctl Hq] Hb] Hlead] Htrail].
  cbn [quote_units]. rewrite Hlead, (IH Hrest).
  unfold quote_unit. rewrite Hq, Hb, Hctl, Hlead, Htrail.
  apply N.ltb_ge in Hctl.
  repeat match goal with
         | |- context [c =? ?k] =>
             destruct (N.eqb_spec c k) as [E|_]; [exfalso; rewrite E in Hctl; now apply Hctl|]
         end.
  reflexivity.
Qed.

Lemma serialize_defined_members o :
  serialize_members (defined_members o) = serialize_members o.
Proof.
  induction o as [|[k v] o IH]; [reflexivity|].
  destruct v; simpl; now rewrite ?IH.
Qed.


(** X7: the request determines the notification: two calls of
    [sendToCleanMaster] with strings send the same body only if they
    were given the same url and the same filename, so no url can pass
    for another or forge the [filename] member. *)
Theorem notification_body_is_injective (url filename url' filename' : jsstring) :
  body (notification_request (VString url) (VString filename)) =
  body (notification_request (VString url') (VString filename')) ->
  url = url' /\ filename = filename'.
Proof.
  intros H. pose proof (read_notification url filename) as R.
  rewrite H, read_notification in R. injection R as -> ->. now split.
Qed.

Lemma notification_body_is_injective_witness :
  body (notification_request (VString report_url) (VString (js "report.pdf"))) =
  body (notification_request (VString report_url) (VString (js "report.pdf"))) /\
  report_url = report_url /\ js "report.pdf" = js "report.pdf".
Proof.
  split; [reflexivity|].
  exact (notification_body_is_injective report_url (js "report.pdf")
           report_url (js "report.pdf") eq_refl).
Defined.

(** X8: a url and a filename made of plain code units (no control
    character, quotation mark, backslash or surrogate) are sent as they
    are: the body is the three members with the two strings between
    quotation marks, nothing escaped. *)
Theorem plain_strings_are_sent_unescaped (url filename : jsstring) :
  forallb plain_unit url = true ->
  forallb plain_unit filename = true ->
  body (notification_request (VString url) (VString filename)) =
    js "{" ++ quoted (js "type") ++ js ":" ++ quoted (js "download")
    ++ js "," ++ quoted (js "url") ++ js ":" ++ quoted url
    ++ js "," ++ quoted (js "filename") ++ js ":" ++ quoted filename
    ++ js "}".
Proof.
  intros Hu Hf.
  unfold notification_request, notification, JSON_stringify.
  cbn [body serialize_members SerializeJSONProperty join].
  unfold QuoteJSONString. rewrite (quote_units_plain url Hu), (quote_units_plain filename Hf).
  rewrite !quote_units_plain by reflexivity.
  unfold quoted.
  change (js "{") with [0x7b]. change (js ":") with [0x3a].
  change (js ",") with [0x2c]. change (js "}") with [0x7d].
  cbn [app]. f_equal.
  repeat (rewrite <- app_assoc || rewrite <- app_comm_cons). reflexivity.
Qed.

Lemma plain_strings_are_sent_unescaped_witness :
  body (notification_request (VString report_url) (VString (js "report.pdf"))) =
    js "{" ++ quoted (js "type") ++ js ":" ++ quoted (js "download")
    ++ js "," ++ quoted (js "url") ++ js ":" ++ quoted report_url
    ++ js "," ++ quoted (js "filename") ++ js ":" ++ quoted (js "report.pdf")
    ++ js "}".
Proof.
  apply (plain_strings_are_sent_unescaped report_url (js "report.pdf")); reflexivity.
Defined.

(** X9: an argument that is [undefined] is left out of the body, not
    sent as [null] or as a text: [sendToCleanMaster(url, undefined)]
    issues its one request with a body of the two members [type] and
    [url], and in general [JSON.stringify] writes an object as it writes
    the object without its undefined properties. *)
Theorem undefined_filename_is_left_out (net : network) (url : jsstring) :
  (exists init,
     transmissions (fst (run net (sendToCleanMaster (VString url) VUndefined)))
       = [(endpoint, init)] /\
     read_object (body init) = Some [(js "type", js "download"); (js "url", url)]) /\
  (forall o : js_object, JSON_stringify o = JSON_stringify (defined_members o)).
Proof.
  split.
  - exists (notification_request (VString url) VUndefined).
    rewrite run_sendToCleanMaster. cbn [fst]. split.
    + change (transmissions (?e :: ?t)) with (transmissions [e] ++ transmissions t).
      now rewrite transmissions_after_fetch.
    + exact (read_object_JSON_stringify [(js "type", js "download"); (js "url", url)]).
  - intros o. unfold JSON_stringify. now rewrite serialize_defined_members.
Qed.

(** ** Further properties: effects and their order *)

Lemma diagnostics_after_fetch o :
  diagnostics (after_fetch o) =
  match o with
  | Resolved r => if ok r then [] else [[VString rejected_message]]
  | Rejected reason => [[VString unreachable_message; reason]]
  end.
Proof. destruct o as [r|e]; simpl; [destruct (ok r)|]; reflexivity. Qed.

(** X10: [sendToCleanMaster] logs if and only if the delivery failed:
    nothing is passed to [console.error] exactly when the response has a
    status in 200..299, and otherwise there is one call, no more; the
    two kinds of failure differ in their arguments (the catch clause
    adds the reason). *)
Theorem logs_iff_delivery_failed (net : network) (url filename : js_value) :
  let o := net endpoint (notification_request url filename) in
  let logged := diagnostics (fst (run net (sendToCleanMaster url filename))) in
  (logged = [] <-> exists r, o = Resolved r /\ (200 <= status r <= 299)%Z) /\
  (List.length logged <= 1)%nat /\
  (forall reason, o = Rejected reason ->
     logged = [[VString unreachable_message; reason]]) /\
  (forall r, o = Resolved r -> ok r = false ->
     logged = [[VString rejected_message]]).
Proof.
  cbv zeta. rewrite run_sendToCleanMaster. cbn [fst].
  change (diagnostics (?e :: ?t)) with (diagnostics [e] ++ diagnostics t).
  rewrite diagnostics_after_fetch. cbn [diagnostics flat_map app].
  destruct (net endpoint (notification_request url filename)) as [r|reason].
  - assert (Hok : ok r = true <-> (200 <= status r <= 299)%Z).
    { unfold ok. rewrite andb_true_iff, !Z.leb_le. reflexivity. }
    destruct (ok r) eqn:E.
    + split; [|split; [simpl; lia | split; [discriminate | congruence]]].
      split; [intros _; exists r; split; [reflexivity | now apply Hok] | reflexivity].
    + split; [|split; [simpl; lia | split; [discriminate | reflexivity]]].
      split; [discriminate|]. intros (r' & Hr & Hs). injection Hr as <-.
      apply Hok in Hs. discriminate.
  - split; [|split; [simpl; lia | split; [congruence | discriminate]]].
    split; [discriminate|]. intros (r' & Hr & _). discriminate.
Qed.

Lemma logs_iff_delivery_failed_witness :
  is_down endpoint (notification_request (VString report_url) (VString (js "report.pdf")))
    = Rejected failed_to_fetch /\
  diagnostics (fst (run is_down
                      (sendToCleanMaster (VString report_url) (VString (js "report.pdf")))))
    = [[VString unreachable_message; failed_to_fetch]].
Proof.
  split; [reflexivity|].
  exact (proj1 (proj2 (proj2
           (logs_iff_delivery_failed is_down (VString report_url) (VString (js "report.pdf")))))
           failed_to_fetch eq_refl).
Defined.

(** X11: the filename listener does not wait for the companion.  Called
    in any state of the host, it returns [undefined] having issued the
    request and nothing else: the log grows by that one [fetch], one
    promise is left pending beside those already there, and what the
    promise does once the [fetch] settles is at most the one
    [console.error]. *)
Theorem filename_listener_returns_before_the_outcome
    (downloadItem : downloads.DownloadItem) (suggest : suggest_callback) (h : host) :
  let init := notification_request (VString (downloads.url downloadItem))
                                   (VString (downloads.filename downloadItem)) in
  exists k,
    onDeterminingFilename_listener downloadItem suggest h =
      (Normal VUndefined,
       {| log := log h ++ [EFetch endpoint init];
          detached := detached h ++ [(endpoint, init, k)] |}) /\
    forall (net : network) (o : fetch_outcome),
      run net (k o) = (after_fetch o, Fulfilled VUndefined).
Proof.
  cbv zeta. eexists. split; [reflexivity|].
  intros net [r|reason]; cbn; [destruct (ok r)|]; reflexivity.
Qed.

(** X12: the request listener does not wait either.  For a type it
    reacts to, it returns [undefined] having issued the request, with
    one promise left pending; for any other type it returns [undefined]
    and leaves the host as it found it. *)
Theorem request_listener_returns_before_the_outcome
    (details : webRequest.details) (h : host) :
  (observed (webRequest.type details) ->
   let init := notification_request (VString (webRequest.url details))
                                    (extract_filename (webRequest.url details)) in
   exists k,
     onBeforeRequest_listener details h =
       (Normal VUndefined,
        {| log := log h ++ [EFetch endpoint init];
           detached := detached h ++ [(endpoint, init, k)] |}) /\
     forall (net : network) (o : fetch_outcome),
       run net (k o) = (after_fetch o, Fulfilled VUndefined)) /\
  (~ observed (webRequest.type details) ->
   onBeforeRequest_listener details h = (Normal VUndefined, h)).
Proof.
  pose proof (observed_dec (webRequest.type details)) as Hdec.
  unfold onBeforeRequest_listener.
  destruct (string_eqb (webRequest.type details) (js "xmlhttprequest")
            || string_eqb (webRequest.type details) (js "main_frame")).
  - split; [|intros H; exfalso; apply H; now apply Hdec].
    intros _. cbv zeta. eexists. split; [reflexivity|].
    intros net [r|reason]; cbn; [destruct (ok r)|]; reflexivity.
  - split; [intros H; apply Hdec in H; discriminate | reflexivity].
Qed.

Lemma request_listener_returns_witness :
  observed (webRequest.type page_load) /\
  exists k,
    onBeforeRequest_listener page_load idle =
      (Normal VUndefined,
       {| log := log idle ++
                 [EFetch endpoint
                    (notification_request (VString (webRequest.url page_load))
                                          (extract_filename (webRequest.url page_load)))];
          detached := detached idle ++
                 [(endpoint,
                   notification_request (VString (webRequest.url page_load))
                                        (extract_filename (webRequest.url page_load)),
                   k)] |}) /\
    forall (net : network) (o : fetch_outcome),
      run net (k o) = (after_fetch o, Fulfilled VUndefined).
Proof.
  assert (H : observed (webRequest.type page_load)) by (right; reflexivity).
  split; [exact H|].
  exact (proj1 (request_listener_returns_before_the_outcome page_load idle) H).
Defined.

(** X13: nothing tells the two listeners' notifications apart.  When a
    download is also seen as a request of a type the request listener
    reacts to, and the name the browser proposes is the last segment of
    the url, the two events return the same value and leave the same
    trace, with the same request: the companion is told twice. *)
Theorem same_download_is_notified_twice_alike
    (net : network) (details : webRequest.details)
    (downloadItem : downloads.DownloadItem) (suggest : suggest_callback) :
  observed (webRequest.type details) ->
  downloads.url downloadItem = webRequest.url details ->
  extract_filename (webRequest.url details) = VString (downloads.filename downloadItem) ->
  dispatch net (onBeforeRequest_listener details) =
  dispatch net (onDeterminingFilename_listener downloadItem suggest).
Proof.
  intros Hobs Hurl Hname.
  rewrite dispatch_onBeforeRequest, dispatch_onDeterminingFilename.
  apply observed_dec in Hobs. rewrite Hobs. cbv zeta.
  rewrite extract_filename_after_last in Hname. injection Hname as Hname.
  now rewrite Hurl, Hname.
Qed.

Lemma same_download_is_notified_twice_witness :
  dispatch answers_404 (onBeforeRequest_listener page_load) =
  dispatch answers_404 (onDeterminingFilename_listener sample_item host_suggest).
Proof.
  apply (same_download_is_notified_twice_alike answers_404 page_load sample_item host_suggest).
  - right; reflexivity.
  - reflexivity.
  - reflexivity.
Defined.
